(** * DmpBbo: the [ModelParameters] base class

    A shallow embedding of [src/functionapproximators/ModelParameters.hpp]:
    the abstract base class of all model parameters of function
    approximators, its stream operator, its default [saveGridData] and its
    boost serialization hook. *)

From Stdlib Require Import ZArith String Ascii Floats.PrimFloat.
From stdpp Require Import base option list gmap strings pretty.

Open Scope Z_scope.

Module DmpBbo.

(** ** Eigen vectors

    [Eigen::VectorXd] is a dynamically sized vector of [double], and
    [Eigen::VectorXi] one of [int]; [size()] is the number of entries. *)

Definition VectorXd : Type := list float.
Definition VectorXi : Type := list Z.

Definition size {A : Type} (v : list A) : Z := Z.of_nat (length v).

(** Conversion to [int], 32 bits in two's complement. *)
Definition to_int (z : Z) : Z := (z + 2 ^ 31) mod 2 ^ 32 - 2 ^ 31.

(** ** Output streams

    A [std::ostream] object carries its error state ([rdstate()]), the state
    bits on which it throws ([exceptions()]), the field width, the fill
    character, whether [adjustfield] is [left], and the address of the
    stream buffer it writes to ([rdbuf()]); several streams may write to one
    buffer. *)

Record iostate : Type := mkIostate {
  badbit : bool;
  failbit : bool;
  eofbit : bool
}.

Definition goodbit : iostate := mkIostate false false false.

Definition state_or (a b : iostate) : iostate :=
  mkIostate (badbit a || badbit b) (failbit a || failbit b)
    (eofbit a || eofbit b).

Definition state_meets (a b : iostate) : bool :=
  (badbit a && badbit b) || (failbit a && failbit b) || (eofbit a && eofbit b).

Definition state_good (a : iostate) : bool :=
  negb (badbit a || failbit a || eofbit a).

Record ios : Type := mkIos {
  rdbuf : positive;
  width : nat;
  fill : Ascii.ascii;
  adjust_left : bool;
  rdstate : iostate;
  exceptions : iostate
}.

Definition set_width (n : nat) (os : ios) : ios :=
  mkIos (rdbuf os) n (fill os) (adjust_left os) (rdstate os) (exceptions os).

Definition set_rdstate (st : iostate) (os : ios) : ios :=
  mkIos (rdbuf os) (width os) (fill os) (adjust_left os) st (exceptions os).

(** A stream buffer: the characters it has accepted, and how many more it
    can take ([None]: any number, as a [std::stringbuf] does). *)
Record streambuf : Type := mkStreambuf {
  contents : string;
  room : option nat
}.

(** ** The state a member function can touch

    [files] is the filesystem (path to contents), [streams] holds every
    [std::ostream] object by address, [buffers] every stream buffer by
    address, and [evaluated] logs the inputs at which basis-function
    responses have been computed. *)

Record World : Type := mkWorld {
  files : gmap string string;
  streams : gmap positive ios;
  buffers : gmap positive streambuf;
  evaluated : list VectorXd
}.

(** A call either returns a value or leaves through a C++ exception. *)
Inductive outcome (A : Type) : Type :=
  | Return (a : A)
  | Throw (what : string).
Arguments Return {A} a.
Arguments Throw {A} what.

Definition M (A : Type) : Type := World -> outcome A * World.

#[export] Instance M_ret : MRet M := fun A a w => (Return a, w).

#[export] Instance M_bind : MBind M := fun A B k c w =>
  match c w with
  | (Return a, w') => k a w'
  | (Throw e, w') => (Throw e, w')
  end.

(** [basic_ios::setstate(add)], that is [clear(rdstate() | add)]: the bits
    are recorded, and [ios_base::failure] is thrown when one of the bits then
    set is in [exceptions()]. *)
Definition setstate (add : iostate) (os : ios) : outcome unit * ios :=
  let os' := set_rdstate (state_or (rdstate os) add) os in
  if state_meets (exceptions os') (rdstate os')
  then (Throw "basic_ios::clear", os')
  else (Return tt, os').

(** [rdbuf()->sputn(text, n)]: the buffer takes as many of the characters as
    it has room for, and tells how many it took. *)
Definition sputn (text : string) (sb : streambuf) : nat * streambuf :=
  match room sb with
  | None => (String.length text, mkStreambuf (contents sb +:+ text) None)
  | Some k =>
      let put := Nat.min (String.length text) k in
      (put, mkStreambuf (contents sb +:+ String.substring 0 put text)
              (Some (k - put)%nat))
  end.

(** Writing a run of characters, as the library's [__ostream_write] and
    [__ostream_fill] do: when the buffer does not take them all, [badbit] is
    set. *)
Definition write_block (text : string) (st : ios * streambuf)
    : outcome unit * (ios * streambuf) :=
  let '(put, sb') := sputn text st.2 in
  if (put =? String.length text)%nat
  then (Return tt, (st.1, sb'))
  else let '(r, os') := setstate (mkIostate true false false) st.1 in
       (r, (os', sb')).

Fixpoint fill_characters (c : Ascii.ascii) (n : nat) : string :=
  match n with
  | O => ""
  | S n' => String c (fill_characters c n')
  end.

(** The body of the formatted inserter for a character sequence, run on a
    stream whose sentry is ok.  When the field is wider than the string, fill
    characters go before it, or after it under [left]; each write is tried
    only while the stream is good.  Then the width is reset.  An exception
    on the way sets [badbit], skips the reset and is thrown again when
    [exceptions()] holds [badbit]. *)
Definition formatted_insert (s : string) (st : ios * streambuf)
    : outcome unit * (ios * streambuf) :=
  let n := String.length s in
  let w := width st.1 in
  let then_write (text : string) (r : outcome unit * (ios * streambuf)) :=
    match r with
    | (Return _, st1) =>
        if state_good (rdstate st1.1) then write_block text st1
        else (Return tt, st1)
    | thrown => thrown
    end in
  let attempt :=
    if (n <? w)%nat then
      let pad := fill_characters (fill st.1) (w - n) in
      if adjust_left st.1
      then then_write pad (write_block s st)
      else then_write s (write_block pad st)
    else write_block s st in
  match attempt with
  | (Return _, (os1, sb1)) => (Return tt, (set_width 0 os1, sb1))
  | (Throw e, (os1, sb1)) =>
      let os2 :=
        set_rdstate (state_or (rdstate os1) (mkIostate true false false)) os1 in
      if badbit (exceptions os2) then (Throw e, (os2, sb1))
      else (Return tt, (os2, sb1))
  end.

(** [std::ostream& operator<<(std::ostream&, const std::string&)].  The
    sentry is ok when the stream is good; on a stream with [badbit] it calls
    [setstate(failbit)], which may throw; otherwise nothing happens.  With
    the sentry ok the characters are inserted as above.  The stream is
    returned.  (Stream buffers here never fail to synchronise, so flushing a
    tied stream changes nothing and is left out.) *)
Definition ostream : Type := positive.

Definition ostream_insert (output : ostream) (s : string) : M ostream :=
  fun w =>
    match streams w !! output with
    | None => (Return output, w)
    | Some os =>
        if state_good (rdstate os) then
          let sb := default (mkStreambuf "" (Some O)) (buffers w !! rdbuf os) in
          let '(r, (os', sb')) := formatted_insert s (os, sb) in
          (match r with Return _ => Return output | Throw e => Throw e end,
           mkWorld (files w) (<[output := os']> (streams w))
             (alter (fun _ => sb') (rdbuf os) (buffers w)) (evaluated w))
        else if badbit (rdstate os) then
          let '(r, os') := setstate (mkIostate false true false) os in
          (match r with Return _ => Return output | Throw e => Throw e end,
           mkWorld (files w) (<[output := os']> (streams w)) (buffers w)
             (evaluated w))
        else (Return output, w)
    end.

(** The characters the buffer of a stream has accepted so far. *)
Definition received (w : World) (output : ostream) : option string :=
  os ← streams w !! output;
  sb ← buffers w !! rdbuf os;
  Some (contents sb).

(** Paths: a file is in a directory when its path extends the directory's. *)
Definition in_directory (dir path : string) : bool :=
  String.prefix (dir +:+ "/") path.

Definition directory_empty (fs : gmap string string) (dir : string) : Prop :=
  forall path, in_directory dir path = true -> fs !! path = None.

Definition directory_has_files (fs : gmap string string) (dir : string) : Prop :=
  exists path, in_directory dir path = true /\ is_Some (fs !! path).

(** ** boost::serialization

    An archive is a sequence of items.  An output archive appends what it is
    given; an input archive hands the items back in the order they were
    written. *)

Inductive item : Type :=
  | ClassInfo (version : N)
  | Int (z : Z)
  | Double (d : float).

Inductive Archive : Type :=
  | oarchive (written : list item)
  | iarchive (remaining : list item).

(** [boost::serialization::implementation_level]: only types at
    [object_class_info] have their class version recorded in an archive. *)
Inductive level_type : Type :=
  | primitive_type
  | object_serializable
  | object_class_info.

(** A serializable type: its registered level and version, and its
    [serialize(ar, version)] template.  Run on an object, [serialize] returns
    the archive and the object as the call leaves them ([None]: the archive
    raised an exception). *)
Class Serialize (A : Type) : Type := {
  implementation_level : level_type;
  class_version : N;
  serialize : Archive -> N -> A -> option (Archive * A)
}.

(** [ar & x]: the class header when the level asks for one, then the
    type's own [serialize]. *)
Definition amp {A : Type} `{Serialize A} (ar : Archive) (x : A)
    : option (Archive * A) :=
  match implementation_level with
  | object_class_info =>
      match ar with
      | oarchive out =>
          serialize (oarchive (out ++ [ClassInfo class_version])) class_version x
      | iarchive (ClassInfo v :: rest) => serialize (iarchive rest) v x
      | iarchive _ => None
      end
  | _ => serialize ar class_version x
  end.

Arguments amp : simpl never.

#[export] Instance Serialize_double : Serialize float := {|
  implementation_level := primitive_type;
  class_version := 0%N;
  serialize ar _ d :=
    match ar with
    | oarchive out => Some (oarchive (out ++ [Double d]), d)
    | iarchive (Double d' :: rest) => Some (iarchive rest, d')
    | iarchive _ => None
    end
|}.

#[export] Instance Serialize_int : Serialize Z := {|
  implementation_level := primitive_type;
  class_version := 0%N;
  serialize ar _ z :=
    match ar with
    | oarchive out => Some (oarchive (out ++ [Int z]), z)
    | iarchive (Int z' :: rest) => Some (iarchive rest, z')
    | iarchive _ => None
    end
|}.

#[export] Instance Serialize_size : Serialize nat := {|
  implementation_level := primitive_type;
  class_version := 0%N;
  serialize ar _ n :=
    match ar with
    | oarchive out => Some (oarchive (out ++ [Int (Z.of_nat n)]), n)
    | iarchive (Int z :: rest) =>
        if (0 <=? z) then Some (iarchive rest, Z.to_nat z) else None
    | iarchive _ => None
    end
|}.

(** A vector goes to an archive as its size followed by its entries; read
    back, it is first resized to the size found. *)
Fixpoint amp_each {A : Type} `{Serialize A} (ar : Archive) (v : list A)
    : option (Archive * list A) :=
  match v with
  | [] => Some (ar, [])
  | x :: v' =>
      '(ar, y) ← amp ar x;
      '(ar, w) ← amp_each ar v';
      Some (ar, y :: w)
  end.

#[export] Instance Serialize_vector {A : Type} `{Serialize A} `{Inhabited A}
    : Serialize (list A) := {|
  implementation_level := object_serializable;
  class_version := 0%N;
  serialize ar _ v :=
    '(ar, n) ← amp ar (length v);
    match ar with
    | oarchive _ => amp_each ar v
    | iarchive _ => amp_each ar (replicate n inhabitant)
    end
|}.

#[export] Instance double_inhabited : Inhabited float := populate 0%float.

(** The whole of an archive written for one object, and the object read
    back from such items into a default-constructed [x0]. *)
Definition save_to_archive {A : Type} `{Serialize A} (x : A)
    : option (list item) :=
  match amp (oarchive []) x with
  | Some (oarchive out, _) => Some out
  | _ => None
  end.

Definition load_from_archive {A : Type} `{Serialize A}
    (items : list item) (x0 : A) : option A :=
  match amp (iarchive items) x0 with
  | Some (iarchive _, x) => Some x
  | _ => None
  end.

(** What an archive round trip asks of a type: an object is written as a
    fixed run of items, and reading that run back gives the object again. *)
Definition round_trips (A : Type) `{Serialize A} : Prop :=
  forall x : A, exists items : list item,
    (forall out, amp (oarchive out) x = Some (oarchive (out ++ items), x)) /\
    (forall y rest, amp (iarchive (items ++ rest)) y = Some (iarchive rest, x)).

(** ** The class

    [Parameterizable] (the base class, from [Parameterizable.hpp]) and
    [ModelParametersUnified] (forward declared) are not defined in this
    header: both are parameters of the development. *)

Section ModelParametersClass.

Variable Parameterizable : Type.
Variable ModelParametersUnified : Type.

(** The virtual member functions.  An object of a concrete subclass is a value
    of type [T]; a heap maps the addresses of allocated objects to their
    state.  [clone] returns the address of the new object, and
    [toModelParametersUnified] a pointer that may be [NULL] ([None]). *)
Class ModelParameters (T : Type) : Type := {
  clone : T -> gmap positive T -> positive * gmap positive T;
  toString : T -> string;
  getExpectedInputDim : T -> Z;
  toModelParametersUnified :
    T -> gmap positive ModelParametersUnified ->
    outcome (option positive) * gmap positive ModelParametersUnified;
  saveGridData : T -> VectorXd -> VectorXd -> VectorXi -> string -> bool -> M bool
}.

(** [friend std::ostream& operator<<(std::ostream& output,
    const ModelParameters& model_parameters)] *)
Definition operator_shl {T : Type} `{ModelParameters T}
    (output : ostream) (model_parameters : T) : M ostream :=
  _ ← ostream_insert output (toString model_parameters);
  mret output.

(** [ModelParameters::saveGridData], the body a subclass inherits when it does
    not override the function. *)
Definition ModelParameters_saveGridData {T : Type} (self : T)
    (min max : VectorXd) (n_samples_per_dim : VectorXi)
    (directory : string) (overwrite : bool) : M bool :=
  mret true.

(** The part of an object that belongs to class [ModelParameters]: the
    [Parameterizable] base-class subobject and no data member of its own. *)
Record ModelParameters_subobject : Type := mkModelParameters {
  base_Parameterizable : Parameterizable
}.

(** [template<class Archive> void ModelParameters::serialize(Archive & ar,
    const unsigned int version)] *)
Definition ModelParameters_serialize `{Serialize Parameterizable}
    (ar : Archive) (version : N) (self : ModelParameters_subobject)
    : option (Archive * ModelParameters_subobject) :=
  '(ar, b) ← amp ar (base_Parameterizable self);
  Some (ar, mkModelParameters b).

(** [BOOST_CLASS_IMPLEMENTATION(DmpBbo::ModelParameters,
    boost::serialization::object_serializable)] *)
#[export] Instance Serialize_ModelParameters `{Serialize Parameterizable}
    : Serialize ModelParameters_subobject := {|
  implementation_level := object_serializable;
  class_version := 0%N;
  serialize := ModelParameters_serialize
|}.

End ModelParametersClass.

Arguments mkModelParameters {Parameterizable} _.
Arguments base_Parameterizable {Parameterizable} _.
Arguments clone {ModelParametersUnified T _} _ _.
Arguments toString {ModelParametersUnified T _} _.
Arguments getExpectedInputDim {ModelParametersUnified T _} _.
Arguments toModelParametersUnified {ModelParametersUnified T _} _ _.
Arguments saveGridData {ModelParametersUnified T _} _ _ _ _ _ _ _.
Arguments operator_shl {ModelParametersUnified T _} _ _ _.

(** ** A concrete subclass

    The header declares [clone], [toString], [getExpectedInputDim] and
    [toModelParametersUnified] pure virtual; their bodies, and the
    [serialize] of each subclass, live in the subclasses' own files. *)

Section Subclass.

Variable Parameterizable : Type.
Variable ModelParametersUnified : Type.
Context `{Serialize Parameterizable}.

(** The data members a subclass adds (weights, centers, widths, ...). *)
Variable Own : Type.
Context `{Serialize Own}.

(** Modelled from the spec: the state of an object of a concrete subclass,
    whose class definition is not in this header.  It consists of the
    [ModelParameters] base part, "the fixed input dimensionality this
    parameter set was fit for", and "the actual numeric arrays". *)
Record Concrete : Type := mkConcrete {
  base_ModelParameters : ModelParameters_subobject Parameterizable;
  n_dims : nat;
  own : Own
}.

(** Modelled from the spec: what tells one subclass from another.
    [describe] is its override of [toString], "a deterministic,
    human-readable representation of current parameter values" with no side
    effects, hence some function of the object's state; [projection] is its
    projection to the unified representation, when it defines one. *)
Class Subclass : Type := {
  describe : Concrete -> string;
  projection : option (Concrete -> ModelParametersUnified)
}.

Context `{Subclass}.

(** Modelled from the spec: the subclass's override of [clone], which "returns
    a deep copy" and "must never return an aliased/shared object": the
    state is copied into a newly allocated object. *)
Definition Concrete_clone (self : Concrete) (heap : gmap positive Concrete)
    : positive * gmap positive Concrete :=
  let q := fresh (dom heap) in (q, <[q := self]> heap).

(** Modelled from the spec: the subclass's override of
    [getExpectedInputDim], which "returns the fixed input dimensionality
    this parameter set was fit for", converted to the [int] the header
    declares. *)
Definition Concrete_getExpectedInputDim (self : Concrete) : Z :=
  to_int (Z.of_nat (n_dims self)).

(** Modelled from the spec: the subclass's override of
    [toModelParametersUnified], which "returns an empty/absent result when
    the concrete subclass has no such projection defined", and otherwise the
    address of a new object holding the projection. *)
Definition Concrete_toModelParametersUnified (self : Concrete)
    (heap : gmap positive ModelParametersUnified)
    : outcome (option positive) * gmap positive ModelParametersUnified :=
  match projection with
  | Some project =>
      let u := fresh (dom heap) in
      (Return (Some u), <[u := project self]> heap)
  | None => (Return None, heap)
  end.

(** Modelled from the spec: a subclass that overrides the four pure virtual
    functions as above and inherits [saveGridData], "not mandatory for every
    subclass". *)
#[export] Instance Concrete_ModelParameters
    : ModelParameters ModelParametersUnified Concrete := {|
  clone := Concrete_clone;
  toString := describe;
  getExpectedInputDim := Concrete_getExpectedInputDim;
  toModelParametersUnified := Concrete_toModelParametersUnified;
  saveGridData := ModelParameters_saveGridData
|}.

(** Modelled from the spec: the subclass's [serialize], which must "round-trip
    a concrete subclass's full state, including the base contract's trivial
    (empty) portion": the [ModelParameters] base object goes first, through
    [ModelParameters::serialize], then each data member. *)
Definition Concrete_serialize (ar : Archive) (version : N) (self : Concrete)
    : option (Archive * Concrete) :=
  '(ar, b) ← amp ar (base_ModelParameters self);
  '(ar, n) ← amp ar (n_dims self);
  '(ar, o) ← amp ar (own self);
  Some (ar, mkConcrete b n o).

(** Modelled from the spec: "no explicit version tagging" for the subclass
    either. *)
#[export] Instance Serialize_Concrete : Serialize Concrete := {|
  implementation_level := object_serializable;
  class_version := 0%N;
  serialize := Concrete_serialize
|}.

End Subclass.

Arguments mkConcrete {Parameterizable Own} _ _ _.
Arguments base_ModelParameters {Parameterizable Own} _.
Arguments n_dims {Parameterizable Own} _.
Arguments own {Parameterizable Own} _.
Arguments describe {Parameterizable ModelParametersUnified Own _} _.
Arguments projection {Parameterizable ModelParametersUnified Own _}.
Arguments Concrete_clone {Parameterizable Own} _ _.
Arguments Concrete_getExpectedInputDim {Parameterizable Own} _.
Arguments Concrete_toModelParametersUnified
  {Parameterizable ModelParametersUnified Own _} _ _.
Arguments Concrete_serialize {Parameterizable _ Own _} _ _ _.
Arguments ModelParameters_serialize {Parameterizable _} _ _ _.

(** ** Objects in memory

    An object of a subclass whose data members are numeric arrays.  The
    object holds its base part and its dimension itself and, as an Eigen
    matrix does, each array in a block of storage of its own. *)

Section Objects.

Variable Parameterizable : Type.

(** Modelled from the spec: the object as it lies in memory, with the
    addresses of the blocks that hold "the actual numeric arrays". *)
Record Stored : Type := mkStored {
  stored_base : ModelParameters_subobject Parameterizable;
  stored_dims : nat;
  stored_arrays : list positive
}.

Record Memory : Type := mkMemory {
  objects : gmap positive Stored;
  blocks : gmap positive VectorXd
}.

(** The state of the object at an address: its members, and what the blocks
    they point to hold. *)
Definition object_at (m : Memory) (a : positive)
    : option (Concrete Parameterizable (list VectorXd)) :=
  st ← objects m !! a;
  vs ← mapM (fun x => blocks m !! x) (stored_arrays st);
  Some (mkConcrete (stored_base st) (stored_dims st) vs).

(** Assignments through a pointer: to a block, and to an object. *)
Definition store_block (x : positive) (v : VectorXd) (m : Memory) : Memory :=
  mkMemory (objects m) (<[x := v]> (blocks m)).

Definition store_object (a : positive) (st : Stored) (m : Memory) : Memory :=
  mkMemory (<[a := st]> (objects m)) (blocks m).

(** Each array is copied into a newly allocated block. *)
Fixpoint copy_arrays (vs : list VectorXd) (bl : gmap positive VectorXd)
    : list positive * gmap positive VectorXd :=
  match vs with
  | [] => ([], bl)
  | v :: vs' =>
      let x := fresh (dom bl) in
      let '(xs, bl') := copy_arrays vs' (<[x := v]> bl) in
      (x :: xs, bl')
  end.

(** Modelled from the spec: [clone] called on the object at [this], which
    "returns a deep copy" and "must never return an aliased/shared object":
    a new object with the same base part and dimension and with copies of
    the arrays.  A call through an address that holds no object is stopped. *)
Definition Stored_clone (this : positive) (m : Memory) (w : World)
    : outcome positive * Memory * World :=
  match objects m !! this, object_at m this with
  | Some st, Some o =>
      let '(xs, bl) := copy_arrays (own o) (blocks m) in
      let b := fresh (dom (objects m)) in
      (Return b,
       mkMemory
         (<[b := mkStored (stored_base st) (stored_dims st) xs]> (objects m))
         bl,
       w)
  | _, _ => (Throw "invalid pointer", m, w)
  end.

(** Modelled from the spec: [getExpectedInputDim] called on the object at
    [this], a "pure query, no side effects" that "returns the fixed input
    dimensionality this parameter set was fit for" as an [int]. *)
Definition Stored_getExpectedInputDim (this : positive) (m : Memory)
    (w : World) : outcome Z * Memory * World :=
  match objects m !! this with
  | Some st => (Return (to_int (Z.of_nat (stored_dims st))), m, w)
  | None => (Throw "invalid pointer", m, w)
  end.

End Objects.

Arguments mkStored {Parameterizable} _ _ _.
Arguments stored_base {Parameterizable} _.
Arguments stored_dims {Parameterizable} _.
Arguments stored_arrays {Parameterizable} _.
Arguments mkMemory {Parameterizable} _ _.
Arguments objects {Parameterizable} _.
Arguments blocks {Parameterizable} _.
Arguments object_at {Parameterizable} _ _.
Arguments store_block {Parameterizable} _ _ _.
Arguments store_object {Parameterizable} _ _ _.
Arguments Stored_clone {Parameterizable} _ _ _.
Arguments Stored_getExpectedInputDim {Parameterizable} _ _ _.

(** ** Vocabulary of the statements *)

(** One of the three grid vectors is not as long as the object's expected
    input dimension. *)
Definition lengths_disagree {ModelParametersUnified T : Type}
    `{ModelParameters ModelParametersUnified T}
    (self : T) (min max : VectorXd) (n_samples_per_dim : VectorXi) : Prop :=
  size min <> getExpectedInputDim self \/
  size max <> getExpectedInputDim self \/
  size n_samples_per_dim <> getExpectedInputDim self.

(** The caller is told of a failure: [false] comes back, or an exception. *)
Definition reported_as_failure (r : outcome bool) : Prop :=
  r = Return false \/ exists what, r = Throw what.

(** Between two states, the response was evaluated at exactly [n] points. *)
Definition evaluates (n : nat) (before after : World) : Prop :=
  exists points : list VectorXd,
    evaluated after = evaluated before ++ points /\ length points = n.

(** A stream has had exactly [text] added to what its buffer held. *)
Definition appends_exactly (text : string) (output : ostream)
    (before after : World) : Prop :=
  exists held : string,
    received before output = Some held /\
    received after output = Some (held +:+ text).

(** The buffer can take the whole of [text], and the buffer once it has. *)
Definition fits (text : string) (sb : streambuf) : Prop :=
  match room sb with
  | None => True
  | Some k => (String.length text <= k)%nat
  end.

Definition after_write (text : string) (sb : streambuf) : streambuf :=
  mkStreambuf (contents sb +:+ text)
    ((fun k => (k - String.length text)%nat) <$> room sb).

(** [s] as a stream with the settings of [os] lays it out in its field. *)
Definition padded (os : ios) (s : string) : string :=
  if (String.length s <? width os)%nat then
    let pad := fill_characters (fill os) (width os - String.length s) in
    if adjust_left os then s +:+ pad else pad +:+ s
  else s.

(** ** An example subclass

    The objects the statements below are tried on: a subclass without a
    unified representation, fit for two input dimensions, over a
    [Parameterizable] that holds one vector of [int]. *)

Module Example.

#[global] Instance weights_only : Subclass VectorXi VectorXd VectorXd := {|
  describe c := "ModelParameters[n_dims=" +:+ pretty (n_dims c) +:+ "]";
  projection := None
|}.

Definition p : Concrete VectorXi VectorXd :=
  mkConcrete (mkModelParameters [1; 0; 1]) 2 [0.5; 1.5; 2.5]%float.

Definition blank : Concrete VectorXi VectorXd :=
  mkConcrete (mkModelParameters []) 0 [].

(** A subclass with several arrays, and an object of it in memory: the
    object at address 1 keeps its two arrays in blocks 1 and 2. *)
#[global] Instance with_arrays : Subclass VectorXi VectorXd (list VectorXd) := {|
  describe c := "ModelParameters[n_dims=" +:+ pretty (n_dims c) +:+ "]";
  projection := None
|}.

Definition r : Concrete VectorXi (list VectorXd) :=
  mkConcrete (mkModelParameters [1; 0; 1]) 2
    [[0.5; 1.5]%float; [2.5]%float].

Definition memory : Memory VectorXi :=
  mkMemory {[ 1%positive := mkStored (mkModelParameters [1; 0; 1]) 2
                              [1%positive; 2%positive] ]}
    {[ 1%positive := [0.5; 1.5]%float; 2%positive := [2.5]%float ]}.

(** A subclass whose [toString] is the empty string. *)
Definition silent : Subclass VectorXi VectorXd VectorXd := {|
  describe c := "";
  projection := None
|}.

(** A stream as [std::ostringstream] constructs it, on buffer [b]. *)
Definition plain_stream (b : positive) : ios :=
  mkIos b 0 " "%char false goodbit goodbit.

(** Nothing on disk, and one open stream that has received "params: ". *)
Definition fresh_world : World :=
  mkWorld ∅ {[ 1%positive := plain_stream 1 ]}
    {[ 1%positive := mkStreambuf "params: " None ]} [].

(** The same, after [std::setw(30)] and [std::setfill('.')]. *)
Definition wide_world : World :=
  mkWorld ∅ {[ 1%positive := mkIos 1 30 "."%char false goodbit goodbit ]}
    {[ 1%positive := mkStreambuf "params: " None ]} [].

(** The directory [grid] already holds a file. *)
Definition used_world : World :=
  mkWorld {[ "grid/n_samples_per_dim.txt" := "3 3" ]} ∅ ∅ [].

End Example.

(** * Properties *)

(** ** The default [saveGridData] *)

Section SaveGridData.

Context {ModelParametersUnified T : Type}.
Context `{ModelParameters ModelParametersUnified T}.

Lemma saveGridData_run (self : T) (min max : VectorXd)
    (n_samples_per_dim : VectorXi) (directory : string) (overwrite : bool)
    (w : World) :
  ModelParameters_saveGridData self min max n_samples_per_dim directory
    overwrite w = (Return true, w).
Proof. reflexivity. Qed.

(** C2: the base-class [saveGridData] is a no-op: whatever the vectors, the
    directory and the overwrite flag, it returns [true] and the filesystem
    is as it was. *)
Theorem saveGridData_default_noop (self : T) (min max : VectorXd)
    (n_samples_per_dim : VectorXi) (directory : string) (overwrite : bool)
    (w : World) :
  let run := ModelParameters_saveGridData self min max n_samples_per_dim
               directory overwrite w in
  fst run = Return true /\ files (snd run) = files w.
Proof. intros run. subst run. rewrite saveGridData_run. split; reflexivity. Qed.

(** C9: the base-class [saveGridData] checks none of its arguments: when the
    lengths of the vectors disagree with [getExpectedInputDim()], and when
    [overwrite] is [false] while the directory already holds files, it
    still returns [true], and files, streams and the evaluation log are all
    left as they were. *)
Theorem saveGridData_default_frame (self : T) (min max : VectorXd)
    (n_samples_per_dim : VectorXi) (directory : string) (overwrite : bool)
    (w : World) :
  lengths_disagree self min max n_samples_per_dim \/
  (overwrite = false /\ directory_has_files (files w) directory) ->
  ModelParameters_saveGridData self min max n_samples_per_dim directory
    overwrite w = (Return true, w).
Proof. intros _. apply saveGridData_run. Qed.

(** C1 (amended): a call of the base-class [saveGridData] whose [min], [max]
    or [n_samples_per_dim] is not of length [getExpectedInputDim()]
    produces no file, and it returns [true]: the mismatch is not reported. *)
Theorem saveGridData_mismatch_returns_true (self : T) (min max : VectorXd)
    (n_samples_per_dim : VectorXi) (directory : string) (overwrite : bool)
    (w : World) :
  lengths_disagree self min max n_samples_per_dim ->
  let run := ModelParameters_saveGridData self min max n_samples_per_dim
               directory overwrite w in
  fst run = Return true /\ ~ reported_as_failure (fst run) /\
  files (snd run) = files w.
Proof.
  intros _ run. subst run. rewrite saveGridData_run. simpl.
  repeat split.
  intros [Hfalse | [what Hthrow]]; discriminate.
Qed.

(** C3 (amended): for an object with [getExpectedInputDim() = 2], the
    base-class [saveGridData] called with [min = [0,0]], [max = [1,1]],
    [n_samples_per_dim = [3,3]] on an empty directory returns [true]
    without evaluating the response at any grid point, and writes nothing. *)
Theorem saveGridData_unit_square_no_evaluation (self : T) (directory : string)
    (overwrite : bool) (w : World) :
  getExpectedInputDim self = 2 ->
  directory_empty (files w) directory ->
  let run := ModelParameters_saveGridData self [0; 0]%float [1; 1]%float
               [3; 3] directory overwrite w in
  fst run = Return true /\ evaluates 0 w (snd run) /\
  files (snd run) = files w.
Proof.
  intros _ _ run. subst run. rewrite saveGridData_run. simpl.
  repeat split. exists []. split; [ symmetry; apply app_nil_r | reflexivity ].
Qed.

End SaveGridData.

Lemma used_world_grid_has_files :
  directory_has_files (files Example.used_world) "grid".
Proof.
  exists "grid/n_samples_per_dim.txt". split; [ reflexivity | ].
  exists "3 3". reflexivity.
Qed.

Lemma fresh_world_grid_empty :
  directory_empty (files Example.fresh_world) "grid".
Proof. intros path _. reflexivity. Qed.

Lemma saveGridData_default_frame_witness :
  lengths_disagree Example.p [0]%float [1; 1]%float [3; 3] /\
  directory_has_files (files Example.used_world) "grid" /\
  ModelParameters_saveGridData Example.p [0]%float [1; 1]%float [3; 3]
    "grid" false Example.used_world = (Return true, Example.used_world).
Proof.
  split; [ left; vm_compute; discriminate | ].
  split; [ exact used_world_grid_has_files | ].
  apply saveGridData_default_frame.
  right. split; [ reflexivity | exact used_world_grid_has_files ].
Defined.

(** C1 (counterexample): the example object expects two input dimensions
    and does not override [saveGridData]; called with a [min] of length
    one, the function returns [true], which reports no failure. *)
Lemma saveGridData_mismatch_unreported :
  lengths_disagree Example.p [0]%float [1; 1]%float [3; 3] /\
  ~ reported_as_failure
      (fst (saveGridData Example.p [0]%float [1; 1]%float [3; 3] "grid"
              false Example.fresh_world)).
Proof.
  split; [ left; vm_compute; discriminate | ].
  intros [Hfalse | [what Hthrow]]; discriminate.
Qed.

Lemma saveGridData_mismatch_returns_true_witness :
  lengths_disagree Example.p [0]%float [1; 1]%float [3; 3] /\
  fst (ModelParameters_saveGridData Example.p [0]%float [1; 1]%float [3; 3]
         "grid" false Example.fresh_world) = Return true.
Proof.
  assert (Hlen : lengths_disagree Example.p [0]%float [1; 1]%float [3; 3])
    by (left; vm_compute; discriminate).
  split; [ exact Hlen | ].
  exact (proj1 (saveGridData_mismatch_returns_true Example.p [0]%float
                  [1; 1]%float [3; 3] "grid" false Example.fresh_world Hlen)).
Defined.

(** C3 (counterexample): the example object expects two input dimensions;
    on the 3 by 3 grid over the unit square and an empty directory, its
    [saveGridData] does not evaluate the response at 9 points. *)
Lemma saveGridData_unit_square_not_nine :
  getExpectedInputDim Example.p = 2 /\
  directory_empty (files Example.fresh_world) "grid" /\
  let run := saveGridData Example.p [0; 0]%float [1; 1]%float [3; 3] "grid"
               false Example.fresh_world in
  ~ (evaluates 9 Example.fresh_world (snd run) /\ fst run = Return true).
Proof.
  split; [ reflexivity | ].
  split; [ exact fresh_world_grid_empty | ].
  intros run [[points [Hlog Hlen]] _].
  simpl in Hlog. subst points. discriminate Hlen.
Qed.

Lemma saveGridData_unit_square_no_evaluation_witness :
  getExpectedInputDim Example.p = 2 /\
  evaluates 0 Example.fresh_world
    (snd (ModelParameters_saveGridData Example.p [0; 0]%float [1; 1]%float
            [3; 3] "grid" false Example.fresh_world)).
Proof.
  split; [ reflexivity | ].
  exact (proj1 (proj2 (saveGridData_unit_square_no_evaluation Example.p
                         "grid" false Example.fresh_world eq_refl
                         fresh_world_grid_empty))).
Defined.

(** ** The stream operator *)

Lemma append_empty_r (s : string) : s +:+ "" = s.
Proof.
  induction s as [| c s IH]; [ reflexivity | ].
  change (String c (s +:+ "") = String c s). rewrite IH. reflexivity.
Qed.

Lemma append_associative (a b c : string) :
  (a +:+ b) +:+ c = a +:+ (b +:+ c).
Proof.
  induction a as [| x a IH]; [ reflexivity | ].
  change (String x ((a +:+ b) +:+ c) = String x (a +:+ (b +:+ c))).
  rewrite IH. reflexivity.
Qed.

Lemma substring_whole (s : string) :
  String.substring 0 (String.length s) s = s.
Proof. induction s as [| c s IH]; [ reflexivity | ]. simpl. rewrite IH. reflexivity. Qed.

Lemma sputn_fits (text : string) (sb : streambuf) :
  fits text sb ->
  sputn text sb = (String.length text, after_write text sb).
Proof.
  unfold fits, sputn, after_write. destruct (room sb) as [k |]; [ | reflexivity ].
  intros Hroom. simpl. rewrite Nat.min_l by exact Hroom.
  rewrite substring_whole. reflexivity.
Qed.

Lemma write_block_fits (text : string) (os : ios) (sb : streambuf) :
  fits text sb ->
  write_block text (os, sb) = (Return tt, (os, after_write text sb)).
Proof.
  intros Hroom. unfold write_block. simpl. rewrite (sputn_fits _ _ Hroom).
  rewrite Nat.eqb_refl. reflexivity.
Qed.

Lemma alter_constant {A : Type} (m : gmap positive A) (i : positive) (x y : A) :
  m !! i = Some x -> alter (fun _ => y) i m = <[i := y]> m.
Proof. intros Hi. apply (alter_alt_Some (fun _ => y) m i x Hi). Qed.

(** On a good stream whose field is no wider than the string and whose
    buffer has room, the string goes in as it is and the width is reset. *)
Lemma ostream_insert_plain (output : ostream) (s : string) (w : World)
    (os : ios) (sb : streambuf) :
  streams w !! output = Some os ->
  state_good (rdstate os) = true ->
  (width os <= String.length s)%nat ->
  buffers w !! rdbuf os = Some sb ->
  fits s sb ->
  ostream_insert output s w =
    (Return output,
     mkWorld (files w) (<[output := set_width 0 os]> (streams w))
       (<[rdbuf os := after_write s sb]> (buffers w)) (evaluated w)).
Proof.
  intros Hos Hgood Hwidth Hsb Hroom. unfold ostream_insert.
  rewrite Hos, Hgood, Hsb. simpl. unfold formatted_insert. simpl.
  destruct (Nat.ltb_spec (String.length s) (width os)) as [Hlt | _]; [ lia | ].
  rewrite (write_block_fits _ _ _ Hroom).
  rewrite (alter_constant _ _ sb _ Hsb). reflexivity.
Qed.

Section StreamOperator.

Context {ModelParametersUnified T : Type}.
Context `{ModelParameters ModelParametersUnified T}.

Lemma operator_shl_run (output : ostream) (p : T) (w : World) :
  operator_shl output p w =
    match ostream_insert output (toString p) w with
    | (Return _, w') => (Return output, w')
    | (Throw e, w') => (Throw e, w')
    end.
Proof. reflexivity. Qed.


End StreamOperator.



(** ** Archives *)

Lemma round_trips_double : round_trips float.
Proof. intros d. exists [Double d]. split; reflexivity. Qed.

Lemma round_trips_int : round_trips Z.
Proof. intros z. exists [Int z]. split; reflexivity. Qed.

Lemma round_trips_size : round_trips nat.
Proof.
  intros n. exists [Int (Z.of_nat n)]. split; [ reflexivity | ].
  intros y rest. unfold amp. simpl.
  destruct (Z.leb_spec 0 (Z.of_nat n)) as [_ | Hneg]; [ | lia ].
  rewrite Nat2Z.id. reflexivity.
Qed.

Section Vectors.

Context {A : Type} `{Serialize A} `{Inhabited A}.
Hypothesis entries : round_trips A.

Lemma amp_each_round_trips (v : list A) :
  exists items : list item,
    (forall out, amp_each (oarchive out) v = Some (oarchive (out ++ items), v)) /\
    (forall ys rest, length ys = length v ->
       amp_each (iarchive (items ++ rest)) ys = Some (iarchive rest, v)).
Proof.
  induction v as [| x v IH].
  - exists []. split.
    + intros out. simpl. rewrite app_nil_r. reflexivity.
    + intros ys rest Hlen. destruct ys; [ reflexivity | discriminate Hlen ].
  - destruct IH as [tl [IHsave IHload]].
    destruct (entries x) as [hd [Hsave Hload]].
    exists (hd ++ tl). split.
    + intros out. simpl. rewrite Hsave. simpl. rewrite IHsave. simpl.
      rewrite app_assoc. reflexivity.
    + intros ys rest Hlen. destruct ys as [| y ys]; [ discriminate Hlen | ].
      simpl. rewrite <- app_assoc, Hload. simpl.
      rewrite IHload by (simpl in Hlen; lia). reflexivity.
Qed.

Lemma round_trips_vector : round_trips (list A).
Proof.
  intros v. destruct (amp_each_round_trips v) as [items [Hsave Hload]].
  destruct (round_trips_size (length v)) as [count [Csave Cload]].
  exists (count ++ items). split.
  - intros out. unfold amp at 1. cbn. rewrite Csave. cbn.
    rewrite Hsave, app_assoc. reflexivity.
  - intros y rest. unfold amp at 1. cbn.
    rewrite <- app_assoc, Cload. cbn.
    apply Hload, length_replicate.
Qed.

End Vectors.

(** ** [ModelParameters::serialize] *)

Section BaseSerialize.

Context {Parameterizable : Type} `{Serialize Parameterizable}.

Lemma amp_ModelParameters (ar : Archive)
    (self : ModelParameters_subobject Parameterizable) :
  amp ar self = ModelParameters_serialize ar 0 self.
Proof. reflexivity. Qed.

Lemma ModelParameters_serialize_unfold (ar : Archive) (version : N)
    (self : ModelParameters_subobject Parameterizable) :
  ModelParameters_serialize ar version self =
    (fun r => (r.1, mkModelParameters r.2)) <$>
      amp ar (base_Parameterizable self).
Proof.
  unfold ModelParameters_serialize.
  destruct (amp ar (base_Parameterizable self)) as [[ar' b] |]; reflexivity.
Qed.

Lemma round_trips_ModelParameters :
  round_trips Parameterizable ->
  round_trips (ModelParameters_subobject Parameterizable).
Proof.
  intros Hbase [b]. destruct (Hbase b) as [items [Hsave Hload]].
  exists items. split.
  - intros out.
    rewrite amp_ModelParameters, ModelParameters_serialize_unfold. cbn.
    rewrite Hsave. reflexivity.
  - intros y rest.
    rewrite amp_ModelParameters, ModelParameters_serialize_unfold.
    rewrite Hload. reflexivity.
Qed.

(** C10: [ModelParameters::serialize] passes the [Parameterizable] base
    object to the archive and nothing else, whatever [version] is; as the
    class is registered [object_serializable], [ar & object] adds no class
    information either.  Two objects with the same [Parameterizable] state
    therefore leave the same archive. *)
Theorem ModelParameters_serialize_base_only (ar : Archive)
    (version version' : N)
    (self other : ModelParameters_subobject Parameterizable) :
  base_Parameterizable self = base_Parameterizable other ->
  ModelParameters_serialize ar version self =
    ((fun r => (r.1, mkModelParameters r.2)) <$>
       amp ar (base_Parameterizable self)) /\
  ModelParameters_serialize ar version' self =
    ModelParameters_serialize ar version self /\
  amp ar self = ModelParameters_serialize ar version self /\
  fst <$> amp ar self = fst <$> amp ar other.
Proof.
  intros Hbase.
  split; [ apply ModelParameters_serialize_unfold | ].
  split; [ reflexivity | ].
  split; [ reflexivity | ].
  rewrite !amp_ModelParameters, !ModelParameters_serialize_unfold, Hbase.
  reflexivity.
Qed.

End BaseSerialize.

(** ** The subclass contract *)

Section SubclassFacts.

Context {Parameterizable ModelParametersUnified Own : Type}.
Context `{Serialize Parameterizable} `{Serialize Own}.
Context `{Subclass Parameterizable ModelParametersUnified Own}.

Lemma amp_Concrete (ar : Archive) (self : Concrete Parameterizable Own) :
  amp ar self = Concrete_serialize ar 0 self.
Proof. reflexivity. Qed.

Lemma round_trips_Concrete :
  round_trips Parameterizable -> round_trips Own ->
  round_trips (Concrete Parameterizable Own).
Proof.
  intros Hbase Hown [b n o].
  destruct (round_trips_ModelParameters Hbase b) as [ib [Bsave Bload]].
  destruct (round_trips_size n) as [im [Nsave Nload]].
  destruct (Hown o) as [io [Osave Oload]].
  exists (ib ++ im ++ io). split.
  - intros out. rewrite amp_Concrete. unfold Concrete_serialize. cbn.
    rewrite Bsave. cbn. rewrite Nsave. cbn. rewrite Osave. cbn.
    rewrite <- !app_assoc. reflexivity.
  - intros y rest. rewrite amp_Concrete. unfold Concrete_serialize.
    rewrite <- !app_assoc, Bload. cbn. rewrite Nload. cbn. rewrite Oload.
    reflexivity.
Qed.

Lemma save_then_load (p x0 : Concrete Parameterizable Own) :
  round_trips Parameterizable -> round_trips Own ->
  exists items : list item,
    save_to_archive p = Some items /\ load_from_archive items x0 = Some p.
Proof.
  intros Hbase Hown.
  destruct (round_trips_Concrete Hbase Hown p) as [items [Hsave Hload]].
  exists items. split.
  - unfold save_to_archive. rewrite Hsave. reflexivity.
  - unfold load_from_archive.
    rewrite <- (app_nil_r items), Hload. reflexivity.
Qed.

(** C4: when the subclass defines no projection to the unified
    representation, [toModelParametersUnified()] returns normally with the
    null pointer: no exception is raised and no object is allocated. *)
Theorem toModelParametersUnified_absent (p : Concrete Parameterizable Own)
    (heap : gmap positive ModelParametersUnified) :
  projection = None ->
  toModelParametersUnified p heap = (Return None, heap).
Proof.
  intros Hnone. cbn. unfold Concrete_toModelParametersUnified.
  rewrite Hnone. reflexivity.
Qed.

(** C5: saving an object to an archive and loading the archive into a
    default-constructed object gives back the object, base part included,
    and so an object with the same [toString()]. *)
Theorem serialization_round_trip (p x0 : Concrete Parameterizable Own) :
  round_trips Parameterizable -> round_trips Own ->
  exists (items : list item) (q : Concrete Parameterizable Own),
    save_to_archive p = Some items /\
    load_from_archive items x0 = Some q /\
    toString q = toString p /\
    q = p.
Proof.
  intros Hbase Hown.
  destruct (save_then_load p x0 Hbase Hown) as [items [Hsave Hload]].
  exists items, p. repeat split; assumption.
Qed.

End SubclassFacts.

Lemma round_trips_VectorXi : round_trips VectorXi.
Proof. apply round_trips_vector, round_trips_int. Qed.

Lemma round_trips_VectorXd : round_trips VectorXd.
Proof. apply round_trips_vector, round_trips_double. Qed.

Lemma ModelParameters_serialize_base_only_witness :
  fst <$> amp (oarchive []) (base_ModelParameters Example.p) =
  fst <$> amp (oarchive []) (mkModelParameters [1; 0; 1]).
Proof.
  exact (proj2 (proj2 (proj2
    (ModelParameters_serialize_base_only (oarchive []) 0 1
       (base_ModelParameters Example.p) (mkModelParameters [1; 0; 1])
       eq_refl)))).
Defined.

Lemma toModelParametersUnified_absent_witness :
  toModelParametersUnified Example.p {[ 1%positive := [0.5]%float ]} =
    (Return None, {[ 1%positive := [0.5]%float ]}).
Proof.
  exact (toModelParametersUnified_absent Example.p
           {[ 1%positive := [0.5]%float ]} eq_refl).
Defined.

Lemma serialization_round_trip_witness :
  exists (items : list item) (q : Concrete VectorXi VectorXd),
    save_to_archive Example.p = Some items /\
    load_from_archive items Example.blank = Some q /\
    toString q = toString Example.p /\
    q = Example.p.
Proof.
  exact (serialization_round_trip Example.p Example.blank
           round_trips_VectorXi round_trips_VectorXd).
Defined.

(** ** Objects in memory *)

Lemma mapM_agree {A B : Type} (f g : A -> option B) (l : list A) :
  (forall x, x ∈ l -> f x = g x) -> mapM f l = mapM g l.
Proof.
  induction l as [| x l IH]; intros Hfg; [ reflexivity | ].
  simpl. rewrite (Hfg x) by (apply elem_of_cons; left; reflexivity).
  rewrite IH; [ reflexivity | ].
  intros y Hy. apply Hfg, elem_of_cons. right. exact Hy.
Qed.

Lemma mapM_defined {A B : Type} (f : A -> option B) (l : list A)
    (k : list B) (x : A) :
  mapM f l = Some k -> x ∈ l -> is_Some (f x).
Proof.
  revert k. induction l as [| y l IH]; intros k Hk Hx.
  - apply elem_of_nil in Hx. destruct Hx.
  - simpl in Hk. destruct (f y) as [b |] eqn:Hy; [ | discriminate Hk ].
    simpl in Hk. destruct (mapM f l) as [k' |] eqn:Hl; [ | discriminate Hk ].
    apply elem_of_cons in Hx as [-> | Hx].
    + rewrite Hy. eauto.
    + apply (IH k' eq_refl Hx).
Qed.

Lemma copy_arrays_spec (vs : list VectorXd) (bl bl' : gmap positive VectorXd)
    (xs : list positive) :
  copy_arrays vs bl = (xs, bl') ->
  (forall x, x ∈ xs -> bl !! x = None) /\
  (forall y v, bl !! y = Some v -> bl' !! y = Some v) /\
  mapM (fun x => bl' !! x) xs = Some vs.
Proof.
  revert bl bl' xs. induction vs as [| v vs IH]; intros bl bl' xs Hcopy.
  - simpl in Hcopy. injection Hcopy as <- <-.
    split; [ intros x Hx; apply elem_of_nil in Hx; destruct Hx | ].
    split; [ auto | reflexivity ].
  - simpl in Hcopy.
    destruct (copy_arrays vs (<[fresh (dom bl) := v]> bl)) as [xs' bl'']
      eqn:Hrest.
    injection Hcopy as <- <-.
    destruct (IH _ _ _ Hrest) as [Hnew [Hkept Hread]].
    assert (Hfresh : bl !! fresh (dom bl) = None)
      by apply not_elem_of_dom, is_fresh.
    split; [ | split ].
    + intros x Hx. apply elem_of_cons in Hx as [-> | Hx]; [ exact Hfresh | ].
      specialize (Hnew x Hx).
      apply lookup_insert_None in Hnew. apply Hnew.
    + intros y u Hy. apply Hkept. rewrite lookup_insert_ne; [ exact Hy | ].
      intros <-. congruence.
    + simpl. rewrite (Hkept (fresh (dom bl)) v) by apply lookup_insert_eq.
      simpl. rewrite Hread. reflexivity.
Qed.

Lemma to_int_small (z : Z) : 0 <= z < 2 ^ 31 -> to_int z = z.
Proof. intros Hz. unfold to_int. rewrite Z.mod_small; lia. Qed.

Lemma round_trips_arrays : round_trips (list VectorXd).
Proof. apply round_trips_vector, round_trips_vector, round_trips_double. Qed.

Section ObjectFacts.

Context {Parameterizable ModelParametersUnified : Type}.
Context `{Serialize Parameterizable}.
Context `{Subclass Parameterizable ModelParametersUnified (list VectorXd)}.

Lemma object_at_inv (m : Memory Parameterizable) (a : positive)
    (p : Concrete Parameterizable (list VectorXd)) :
  object_at m a = Some p ->
  exists st : Stored Parameterizable,
    objects m !! a = Some st /\
    mapM (fun x => blocks m !! x) (stored_arrays st) = Some (own p) /\
    mkConcrete (stored_base st) (stored_dims st) (own p) = p.
Proof.
  unfold object_at. intros Hat.
  destruct (objects m !! a) as [st |]; [ | discriminate Hat ]. simpl in Hat.
  destruct (mapM (fun x => blocks m !! x) (stored_arrays st)) as [vs |]
    eqn:Hvs; [ | discriminate Hat ].
  simpl in Hat. injection Hat as <-. exists st.
  split; [ reflexivity | ]. split; [ exact Hvs | reflexivity ].
Qed.

Lemma object_at_intro (m : Memory Parameterizable) (a : positive)
    (st : Stored Parameterizable) (vs : list VectorXd) :
  objects m !! a = Some st ->
  mapM (fun x => blocks m !! x) (stored_arrays st) = Some vs ->
  object_at m a = Some (mkConcrete (stored_base st) (stored_dims st) vs).
Proof. intros Hst Hvs. unfold object_at. rewrite Hst. simpl. rewrite Hvs. reflexivity. Qed.

(** What [clone] does on a valid object, with the facts on the new blocks. *)
Lemma Stored_clone_run (m : Memory Parameterizable) (w : World) (a : positive)
    (p : Concrete Parameterizable (list VectorXd))
    (st : Stored Parameterizable) :
  objects m !! a = Some st ->
  object_at m a = Some p ->
  exists (xs : list positive) (bl : gmap positive VectorXd),
    Stored_clone a m w =
      (Return (fresh (dom (objects m))),
       mkMemory
         (<[fresh (dom (objects m)) :=
              mkStored (stored_base st) (stored_dims st) xs]> (objects m))
         bl,
       w) /\
    (forall x, x ∈ xs -> blocks m !! x = None) /\
    (forall y v, blocks m !! y = Some v -> bl !! y = Some v) /\
    mapM (fun x => bl !! x) xs = Some (own p).
Proof.
  intros Hst Hat. unfold Stored_clone. rewrite Hst, Hat.
  destruct (copy_arrays (own p) (blocks m)) as [xs bl] eqn:Hcopy.
  exists xs, bl. split; [ reflexivity | ].
  exact (copy_arrays_spec _ _ _ _ Hcopy).
Qed.

(** C6: for a valid object [p] at address [a], [clone] returns the address
    [b] of a new object.  [b] is not [a]; the object at [b] is in the state
    of [p], so its [toString()] is that of [p]; [p] is as it was; the two
    objects have no block of storage in common; and an assignment to a
    block of either object, or to either object itself, leaves the other
    object in its state. *)
Theorem clone_independent_deep_copy (m : Memory Parameterizable) (w : World)
    (a : positive) (p : Concrete Parameterizable (list VectorXd)) :
  object_at m a = Some p ->
  exists (b : positive) (m' : Memory Parameterizable)
         (st_a st_b : Stored Parameterizable),
    Stored_clone a m w = (Return b, m', w) /\
    b <> a /\
    objects m' !! a = Some st_a /\
    objects m' !! b = Some st_b /\
    (exists q, object_at m' b = Some q /\ toString q = toString p /\ q = p) /\
    object_at m' a = Some p /\
    (forall x, x ∈ stored_arrays st_a -> x ∉ stored_arrays st_b) /\
    (forall x v, x ∈ stored_arrays st_b ->
       object_at (store_block x v m') a = Some p) /\
    (forall x v, x ∈ stored_arrays st_a ->
       object_at (store_block x v m') b = Some p) /\
    (forall st, object_at (store_object b st m') a = Some p) /\
    (forall st, object_at (store_object a st m') b = Some p).
Proof.
  intros Hat.
  destruct (object_at_inv m a p Hat) as [st [Hst [Hvs Hp]]].
  destruct (Stored_clone_run m w a p st Hst Hat)
    as [xs [bl [Hrun [Hnew [Hkept Hread]]]]].
  set (b := fresh (dom (objects m))) in *.
  assert (Hb : objects m !! b = None) by apply not_elem_of_dom, is_fresh.
  assert (Hne : b <> a) by (intros Heq; rewrite Heq in Hb; congruence).
  assert (Hmine : forall x, x ∈ stored_arrays st -> is_Some (blocks m !! x))
    by (intros x Hx; exact (mapM_defined _ _ _ x Hvs Hx)).
  assert (Hapart : forall x y, x ∈ stored_arrays st -> y ∈ xs -> x <> y).
  { intros x y Hx Hy ->. destruct (Hmine y Hx) as [u Hu].
    rewrite (Hnew y Hy) in Hu. discriminate Hu. }
  (* the arrays of the original read the same in every extension *)
  assert (Hold : forall bl2 : gmap positive VectorXd,
             (forall x, x ∈ stored_arrays st -> bl2 !! x = blocks m !! x) ->
             mapM (fun x => bl2 !! x) (stored_arrays st) = Some (own p)).
  { intros bl2 Hsame. rewrite <- Hvs. apply mapM_agree. exact Hsame. }
  assert (Hbl : forall x, x ∈ stored_arrays st -> bl !! x = blocks m !! x).
  { intros x Hx. destruct (Hmine x Hx) as [u Hu].
    rewrite Hu. apply Hkept, Hu. }
  exists b, (mkMemory
               (<[b := mkStored (stored_base st) (stored_dims st) xs]>
                  (objects m)) bl),
    st, (mkStored (stored_base st) (stored_dims st) xs).
  split; [ exact Hrun | ]. split; [ exact Hne | ].
  split; [ simpl; rewrite lookup_insert_ne by exact Hne; exact Hst | ].
  split; [ simpl; apply lookup_insert_eq | ].
  split.
  { exists p. split; [ | split; reflexivity ].
    rewrite <- Hp.
    apply (object_at_intro _ b (mkStored (stored_base st) (stored_dims st) xs));
      [ apply lookup_insert_eq | exact Hread ]. }
  split.
  { rewrite <- Hp. apply (object_at_intro _ a st).
    - simpl. rewrite lookup_insert_ne by exact Hne. exact Hst.
    - apply Hold, Hbl. }
  split.
  { intros x Hx Hin. exact (Hapart x x Hx Hin eq_refl). }
  split.
  { intros x v Hx. simpl in Hx. rewrite <- Hp.
    apply (object_at_intro _ a st).
    - simpl. rewrite lookup_insert_ne by exact Hne. exact Hst.
    - apply Hold. intros y Hy. simpl.
      rewrite lookup_insert_ne by (intros ->; exact (Hapart y y Hy Hx eq_refl)).
      apply Hbl, Hy. }
  split.
  { intros x v Hx. rewrite <- Hp.
    apply (object_at_intro _ b (mkStored (stored_base st) (stored_dims st) xs)).
    - simpl. apply lookup_insert_eq.
    - rewrite <- Hread. apply mapM_agree. intros y Hy. simpl.
      apply lookup_insert_ne. intros ->. exact (Hapart y y Hx Hy eq_refl). }
  split.
  { intros st'. rewrite <- Hp. apply (object_at_intro _ a st).
    - simpl. rewrite !lookup_insert_ne by exact Hne. exact Hst.
    - apply Hold, Hbl. }
  { intros st'. rewrite <- Hp.
    apply (object_at_intro _ b (mkStored (stored_base st) (stored_dims st) xs)).
    - simpl. rewrite lookup_insert_ne by congruence. apply lookup_insert_eq.
    - exact Hread. }
Qed.

(** C8: for a valid object [p] at address [a] whose dimension fits an [int],
    a call of [getExpectedInputDim()] returns a value that is not negative
    and leaves memory, files and streams as they were; so a second call
    returns the same value.  After [clone], the call on the clone and the
    call on [p] return that value, and so does the object read back from
    the archive of [p]. *)
Theorem getExpectedInputDim_stable (m : Memory Parameterizable) (w : World)
    (a : positive) (p x0 : Concrete Parameterizable (list VectorXd)) :
  round_trips Parameterizable ->
  object_at m a = Some p ->
  Z.of_nat (n_dims p) < 2 ^ 31 ->
  let d := getExpectedInputDim p in
  0 <= d /\
  Stored_getExpectedInputDim a m w = (Return d, m, w) /\
  (forall r m1 w1,
     Stored_getExpectedInputDim a m w = (r, m1, w1) ->
     Stored_getExpectedInputDim a m1 w1 = (Return d, m1, w1)) /\
  (forall b m' w',
     Stored_clone a m w = (Return b, m', w') ->
     Stored_getExpectedInputDim b m' w' = (Return d, m', w') /\
     Stored_getExpectedInputDim a m' w' = (Return d, m', w')) /\
  exists items : list item,
    save_to_archive p = Some items /\
    getExpectedInputDim <$> load_from_archive items x0 = Some d.
Proof.
  intros Hbase Hat Hfit d.
  destruct (object_at_inv m a p Hat) as [st [Hst [Hvs Hp]]].
  assert (Hdims : stored_dims st = n_dims p) by (rewrite <- Hp; reflexivity).
  assert (Hcall : Stored_getExpectedInputDim a m w = (Return d, m, w)).
  { unfold Stored_getExpectedInputDim. rewrite Hst, Hdims. reflexivity. }
  split.
  { subst d. cbn. unfold Concrete_getExpectedInputDim.
    rewrite to_int_small by lia. lia. }
  split; [ exact Hcall | ].
  split.
  { intros r m1 w1 Hfirst. rewrite Hcall in Hfirst.
    injection Hfirst as _ <- <-. exact Hcall. }
  split.
  { intros b m' w' Hclone.
    destruct (Stored_clone_run m w a p st Hst Hat) as [xs [bl [Hrun _]]].
    rewrite Hrun in Hclone. injection Hclone as <- <- <-.
    assert (Hne : fresh (dom (objects m)) <> a).
    { intros Heq.
      assert (Hb : objects m !! fresh (dom (objects m)) = None)
        by apply not_elem_of_dom, is_fresh.
      rewrite Heq in Hb. congruence. }
    unfold Stored_getExpectedInputDim. simpl.
    rewrite lookup_insert_eq, lookup_insert_ne by exact Hne.
    rewrite Hst. simpl. rewrite Hdims. split; reflexivity. }
  destruct (save_then_load p x0 Hbase round_trips_arrays)
    as [items [Hsave Hload]].
  exists items. rewrite Hload. split; [ exact Hsave | reflexivity ].
Qed.

End ObjectFacts.

Lemma example_object_at : object_at Example.memory 1%positive = Some Example.r.
Proof. reflexivity. Qed.

Lemma clone_independent_deep_copy_witness :
  exists (b : positive) (m' : Memory VectorXi),
    Stored_clone 1%positive Example.memory Example.fresh_world =
      (Return b, m', Example.fresh_world) /\
    b <> 1%positive /\
    object_at m' b = Some Example.r /\
    object_at m' 1%positive = Some Example.r.
Proof.
  destruct (clone_independent_deep_copy Example.memory Example.fresh_world
              1%positive Example.r example_object_at)
    as [b [m' [st_a [st_b [Hrun [Hne [_ [_ [[q [Hq [_ ->]]] [Ha _]]]]]]]]]].
  exists b, m'. repeat split; assumption.
Defined.

Lemma getExpectedInputDim_stable_witness :
  0 <= getExpectedInputDim Example.r /\
  Stored_getExpectedInputDim 1%positive Example.memory Example.fresh_world =
    (Return 2, Example.memory, Example.fresh_world).
Proof.
  pose proof (getExpectedInputDim_stable Example.memory Example.fresh_world
                1%positive Example.r Example.r round_trips_VectorXi
                example_object_at eq_refl) as [Hpos [Hcall _]].
  split; [ exact Hpos | exact Hcall ].
Defined.

(** * Further properties *)

(** ** Composing the stream operator *)

Lemma after_write_unbounded (text : string) (sb : streambuf) :
  room sb = None ->
  after_write text sb = mkStreambuf (contents sb +:+ text) None.
Proof. intros Hroom. unfold after_write. rewrite Hroom. reflexivity. Qed.

Lemma fits_unbounded (text : string) (sb : streambuf) :
  room sb = None -> fits text sb.
Proof. intros Hroom. unfold fits. rewrite Hroom. exact I. Qed.

Lemma write_two_blocks_unbounded (a b : string) (os : ios) (sb : streambuf) :
  room sb = None ->
  write_block b (os, after_write a sb) =
    (Return tt, (os, mkStreambuf (contents sb +:+ (a +:+ b)) None)).
Proof.
  intros Hroom. rewrite (after_write_unbounded a sb Hroom).
  rewrite write_block_fits by (apply fits_unbounded; reflexivity).
  rewrite after_write_unbounded by reflexivity. simpl.
  rewrite append_associative. reflexivity.
Qed.

Lemma formatted_insert_unbounded (s : string) (os : ios) (sb : streambuf) :
  state_good (rdstate os) = true ->
  room sb = None ->
  formatted_insert s (os, sb) =
    (Return tt,
     (set_width 0 os, mkStreambuf (contents sb +:+ padded os s) None)).
Proof.
  intros Hgood Hroom. unfold formatted_insert, padded. simpl.
  destruct (String.length s <? width os)%nat.
  - destruct (adjust_left os);
      rewrite (write_block_fits _ _ _ (fits_unbounded _ _ Hroom));
      simpl; rewrite Hgood, (write_two_blocks_unbounded _ _ _ _ Hroom);
      reflexivity.
  - rewrite (write_block_fits _ _ _ (fits_unbounded _ _ Hroom)).
    rewrite after_write_unbounded by exact Hroom. reflexivity.
Qed.

Lemma ostream_insert_unbounded (output : ostream) (s : string) (w : World)
    (os : ios) (sb : streambuf) :
  streams w !! output = Some os ->
  state_good (rdstate os) = true ->
  buffers w !! rdbuf os = Some sb ->
  room sb = None ->
  ostream_insert output s w =
    (Return output,
     mkWorld (files w) (<[output := set_width 0 os]> (streams w))
       (<[rdbuf os := mkStreambuf (contents sb +:+ padded os s) None]>
          (buffers w))
       (evaluated w)).
Proof.
  intros Hos Hgood Hsb Hroom. unfold ostream_insert.
  rewrite Hos, Hgood, Hsb. simpl.
  rewrite (formatted_insert_unbounded _ _ _ Hgood Hroom).
  rewrite (alter_constant _ _ sb _ Hsb). reflexivity.
Qed.

Lemma setstate_quiet (add : iostate) (os : ios) :
  exceptions os = goodbit ->
  setstate add os = (Return tt, set_rdstate (state_or (rdstate os) add) os).
Proof. intros Hquiet. unfold setstate. simpl. rewrite Hquiet. reflexivity. Qed.

Lemma write_block_quiet (text : string) (os : ios) (sb : streambuf) :
  exceptions os = goodbit ->
  exists os' sb',
    write_block text (os, sb) = (Return tt, (os', sb')) /\
    exceptions os' = goodbit /\ adjust_left os' = adjust_left os.
Proof.
  intros Hquiet. unfold write_block. simpl.
  destruct (sputn text sb) as [put sb'].
  destruct (put =? String.length text)%nat.
  - exists os, sb'. auto.
  - rewrite (setstate_quiet _ _ Hquiet). eexists _, sb'.
    split; [ reflexivity | ]. split; [ exact Hquiet | reflexivity ].
Qed.

Lemma formatted_insert_quiet (s : string) (os : ios) (sb : streambuf) :
  exceptions os = goodbit ->
  exists os' sb', formatted_insert s (os, sb) = (Return tt, (os', sb')).
Proof.
  intros Hquiet. unfold formatted_insert. simpl.
  destruct (String.length s <? width os)%nat.
  - destruct (adjust_left os).
    + destruct (write_block_quiet s os sb Hquiet) as [os1 [sb1 [H1 [Hq1 _]]]].
      rewrite H1. simpl. destruct (state_good (rdstate os1)).
      * destruct (write_block_quiet
                    (fill_characters (fill os) (width os - String.length s))
                    os1 sb1 Hq1) as [os2 [sb2 [H2 _]]].
        rewrite H2. eauto.
      * eauto.
    + destruct (write_block_quiet
                  (fill_characters (fill os) (width os - String.length s))
                  os sb Hquiet) as [os1 [sb1 [H1 [Hq1 _]]]].
      rewrite H1. simpl. destruct (state_good (rdstate os1)).
      * destruct (write_block_quiet s os1 sb1 Hq1) as [os2 [sb2 [H2 _]]].
        rewrite H2. eauto.
      * eauto.
  - destruct (write_block_quiet s os sb Hquiet) as [os1 [sb1 [H1 _]]].
    rewrite H1. eauto.
Qed.

Lemma world_same (w : World) :
  mkWorld (files w) (streams w) (buffers w) (evaluated w) = w.
Proof. destruct w. reflexivity. Qed.

(** What an insertion does to a stream that never throws depends only on
    the stream and on its buffer, and touches only these two. *)
Lemma ostream_insert_local (output : ostream) (s : string) (os : ios)
    (ob : option streambuf) :
  exceptions os = goodbit ->
  exists (os' : ios) (f : streambuf -> streambuf),
    forall w : World,
      streams w !! output = Some os ->
      buffers w !! rdbuf os = ob ->
      ostream_insert output s w =
        (Return output,
         mkWorld (files w) (<[output := os']> (streams w))
           (alter f (rdbuf os) (buffers w)) (evaluated w)).
Proof.
  intros Hquiet. destruct (state_good (rdstate os)) eqn:Hgood.
  - destruct (formatted_insert_quiet s os
                (default (mkStreambuf "" (Some O)) ob) Hquiet)
      as [os' [sb' Hrun]].
    exists os', (fun _ => sb'). intros w Hos Hob.
    unfold ostream_insert. rewrite Hos, Hgood, Hob, Hrun. reflexivity.
  - destruct (badbit (rdstate os)) eqn:Hbad.
    + exists (set_rdstate (state_or (rdstate os) (mkIostate false true false)) os),
        (fun sb => sb).
      intros w Hos Hob. unfold ostream_insert.
      rewrite Hos, Hgood, Hbad, (setstate_quiet _ _ Hquiet).
      rewrite alter_id by reflexivity. reflexivity.
    + exists os, (fun sb => sb). intros w Hos Hob. unfold ostream_insert.
      rewrite Hos, Hgood, Hbad, alter_id by reflexivity.
      rewrite (insert_id _ _ _ Hos), world_same. reflexivity.
Qed.

Section StreamComposition.

Context {U1 U2 T1 T2 : Type}.
Context `{ModelParameters U1 T1} `{ModelParameters U2 T2}.



End StreamComposition.

Section StreamEdge.

Context {ModelParametersUnified T : Type}.
Context `{ModelParameters ModelParametersUnified T}.



End StreamEdge.





(** ** Archives of [ModelParameters] objects *)

Section BaseArchives.

Context {Parameterizable : Type} `{Serialize Parameterizable}.

(** X4: when the [Parameterizable] base round-trips, so does
    [ModelParameters::serialize], whatever versions it is called with:
    saving appends a run of items and leaves the object as it is; loading
    from that run, whatever follows it and whatever the receiving object
    held, gives the saved object and leaves what follows unread. *)
Theorem ModelParameters_serialize_round_trip
    (self : ModelParameters_subobject Parameterizable) (version version' : N) :
  round_trips Parameterizable ->
  exists items : list item,
    (forall out,
       ModelParameters_serialize (oarchive out) version self =
         Some (oarchive (out ++ items), self)) /\
    (forall y rest,
       ModelParameters_serialize (iarchive (items ++ rest)) version' y =
         Some (iarchive rest, self)).
Proof.
  intros Hbase.
  destruct (round_trips_ModelParameters Hbase self) as [items [Hsave Hload]].
  exists items. split.
  - intros out. rewrite <- (Hsave out). reflexivity.
  - intros y rest. rewrite <- (Hload y rest). reflexivity.
Qed.

(** X5: two objects saved one after the other into one archive are read
    back in that order, each as it was saved. *)
Theorem ModelParameters_serialize_sequence
    (a b x0 y0 : ModelParameters_subobject Parameterizable) :
  round_trips Parameterizable ->
  exists items : list item,
    ('(ar, _) ← amp (oarchive []) a; amp ar b) = Some (oarchive items, b) /\
    ('(ar, x) ← amp (iarchive items) x0;
     '(ar, y) ← amp ar y0;
     Some (ar, x, y)) = Some (iarchive [], a, b).
Proof.
  intros Hbase.
  destruct (round_trips_ModelParameters Hbase a) as [ia [Asave Aload]].
  destruct (round_trips_ModelParameters Hbase b) as [ib [Bsave Bload]].
  exists (ia ++ ib). split.
  - rewrite Asave. cbn. rewrite Bsave. reflexivity.
  - rewrite Aload. cbn. rewrite <- (app_nil_r ib), Bload. reflexivity.
Qed.

End BaseArchives.

Lemma ModelParameters_serialize_round_trip_witness :
  exists items : list item,
    (forall out,
       ModelParameters_serialize (oarchive out) 0
         (mkModelParameters ([1; 0; 1] : VectorXi)) =
         Some (oarchive (out ++ items), mkModelParameters [1; 0; 1])) /\
    (forall y rest,
       ModelParameters_serialize (iarchive (items ++ rest)) 7 y =
         Some (iarchive rest, mkModelParameters [1; 0; 1])).
Proof.
  exact (ModelParameters_serialize_round_trip
           (mkModelParameters ([1; 0; 1] : VectorXi)) 0 7
           round_trips_VectorXi).
Defined.

Lemma ModelParameters_serialize_sequence_witness :
  exists items : list item,
    ('(ar, _) ← amp (oarchive []) (mkModelParameters ([1; 0; 1] : VectorXi));
     amp ar (mkModelParameters ([2] : VectorXi))) =
      Some (oarchive items, mkModelParameters [2]) /\
    ('(ar, x) ← amp (iarchive items) (mkModelParameters ([] : VectorXi));
     '(ar, y) ← amp ar (mkModelParameters ([] : VectorXi));
     Some (ar, x, y)) =
      Some (iarchive [], mkModelParameters [1; 0; 1], mkModelParameters [2]).
Proof.
  exact (ModelParameters_serialize_sequence
           (mkModelParameters ([1; 0; 1] : VectorXi))
           (mkModelParameters ([2] : VectorXi))
           (mkModelParameters []) (mkModelParameters [])
           round_trips_VectorXi).
Defined.

End DmpBbo.
